(** * MediaObserver: the activation-merging pipeline of flex-layout

    A shallow embedding of [src/lib/core/media-observer/media-observer.ts]:
    the [MediaObserver] class with its private helpers ([hasChanges],
    [excludeOverlaps], [findAllActivations], [toMediaQuery]) and the exported
    comparator [sortChangesByPriority].

    The collaborators the class is constructed with (the breakpoint registry,
    the media matcher and the print hook) are interfaces here, as they are for
    the class; the few JavaScript and RxJS primitives the code calls
    ([Array.prototype.sort], [filter], [debounceTime], [switchMap], [map]) are
    given by their documented behaviour in the modules [JS] and [Rx].

    Priorities are JavaScript numbers in the source; they are integers ([Z])
    here, and an absent ([undefined]) priority is [None]. The statements rely
    on the sign of a comparison and on the defaults only, not on exact
    arithmetic. *)

From Stdlib Require Import List String ZArith Bool Arith Lia.
From Stdlib Require Import Permutation Sorted.
Import ListNotations.

(* ================================================================= *)
(** ** JavaScript primitives *)

Module JS.

(** [x || d] on an optional number: [undefined], [null] and [0] are falsy. *)
Definition or_num (x : option Z) (d : Z) : Z :=
  match x with
  | Some n => if (n =? 0)%Z then d else n
  | None => d
  end.

Section Sort.
Context {A : Type}.
Variable compareFn : A -> A -> Z.

(** Places [x], which preceded every element of [l] in the input, in
    front of the first element it does not have to follow: [x] moves
    behind [y] only when [compareFn x y > 0]. *)
Fixpoint insert (x : A) (l : list A) : list A :=
  match l with
  | [] => [x]
  | y :: l' =>
      if (0 <? compareFn x y)%Z then y :: insert x l' else x :: y :: l'
  end.

(** [Array.prototype.sort(compareFn)]: a stable sort (ECMAScript 2019),
    here by insertion from the right end of the array. *)
Definition sort (l : list A) : list A := fold_right insert [] l.
End Sort.

End JS.

(* ================================================================= *)
(** ** RxJS primitives on timed streams *)

Module Rx.

(** A stream is the finite list of the notifications observed on it, each
    with its time of arrival in milliseconds, earliest first. Nothing
    arrives after the last one. *)
Definition stream (A : Type) : Type := list (nat * A).

Section Operators.
Context {A B : Type}.

(** [filter(p)]; the predicate is a closure, run at the time of arrival. *)
Definition filter (p : nat -> A -> bool) (s : stream A) : stream A :=
  List.filter (fun e => p (fst e) (snd e)) s.

(** [map(f)]; [f] is a closure, run at the time of arrival. *)
Definition map (f : nat -> A -> B) (s : stream A) : stream B :=
  List.map (fun e => (fst e, f (fst e) (snd e))) s.

(** [switchMap(v => of(project(v)))]: the inner observable [of(x)] emits
    [x] and completes at once, so each outer notification is answered, at
    its own time, by the one value [project] computes then. *)
Definition switchMap_of (project : nat -> A -> B) (s : stream A) : stream B :=
  map project s.

(** [debounceTime(dueTime)]: a notification is passed on [dueTime] ms after
    its arrival, unless another one arrives by then, which discards it. A
    notification that arrives at the very millisecond the timer is due is
    delivered first and discards the pending one too. *)
Fixpoint debounceTime (dueTime : nat) (s : stream A) : stream A :=
  match s with
  | [] => []
  | (t, v) :: rest =>
      match rest with
      | [] => [(t + dueTime, v)]
      | (t', _) :: _ =>
          if t' <=? t + dueTime then debounceTime dueTime rest
          else (t + dueTime, v) :: debounceTime dueTime rest
      end
  end.
End Operators.

(** The arrival time of the last notification of a stream. *)
Definition last_time {A} (s : stream A) : nat :=
  List.last (List.map fst s) 0.

End Rx.

(* ================================================================= *)
(** ** Data model *)

(** Modelled from the spec: the [BreakPoint] interface is declared outside
    [media-observer.ts]; the fields are those of the spec's data model
    (alias, mediaQuery, priority with default 0, overlapping). *)
Record BreakPoint : Type := mkBreakPoint {
  alias : string;
  bp_mediaQuery : string;
  bp_priority : Z;
  overlapping : bool
}.

(** [OptionalBreakPoint] is [BreakPoint | null]. *)
Definition OptionalBreakPoint : Type := option BreakPoint.

(** Modelled from the spec: the [MediaChange] class is declared outside
    [media-observer.ts]; the fields are those of the spec's data model. The
    priority is a number that the comparator allows to be absent. *)
Record MediaChange : Type := mkMediaChange {
  matches : bool;
  mediaQuery : string;
  mqAlias : string;
  suffix : string;
  priority : option Z
}.

(** Modelled from the spec: [new MediaChange(matches, mediaQuery)], the
    constructor of the missing class, leaves the alias fields empty and the
    priority at its default 0. *)
Definition new_MediaChange (m : bool) (query : string) : MediaChange :=
  {| matches := m; mediaQuery := query;
     mqAlias := EmptyString; suffix := EmptyString; priority := Some 0%Z |}.

(** Modelled from the spec: [mergeAlias(dest, source)] of [../add-alias],
    which is not part of the sources at hand. It merges the alias and the
    priority of the breakpoint into the change when there is a breakpoint, and
    passes the change through unannotated otherwise. *)
Definition mergeAlias (dest : MediaChange) (source : OptionalBreakPoint) : MediaChange :=
  match source with
  | Some bp =>
      {| matches := matches dest; mediaQuery := mediaQuery dest;
         mqAlias := alias bp; suffix := suffix dest;
         priority := Some (bp_priority bp) |}
  | None => dest
  end.

(* ================================================================= *)
(** ** Collaborators *)

(** The part of [BreakPointRegistry] the observer uses. Absence is the normal
    result [None] of a lookup. *)
Record BreakPointRegistry : Type := mkRegistry {
  items : list BreakPoint;
  findByAlias : string -> OptionalBreakPoint;
  findByQuery : string -> OptionalBreakPoint
}.

(** The part of [MatchMedia] the observer reads: the queries that match now
    and the current state of any one query. *)
Record MatchMedia : Type := mkMatchMedia {
  activations : list string;
  mm_isActive : string -> bool
}.

(** The part of [PrintHook] the observer uses. *)
Record PrintHook : Type := mkPrintHook {
  withPrintQuery : list string -> list string;
  isPrintEvent : MediaChange -> bool;
  updateEvent : MediaChange -> MediaChange
}.

(** Modelled from the spec: a registry that is the static table of its
    breakpoints, with both lookups returning the first entry in registration
    order. The registry class itself is not part of the sources at hand. *)
Definition table_registry (bps : list BreakPoint) : BreakPointRegistry :=
  {| items := bps;
     findByAlias := fun a => find (fun bp => String.eqb (alias bp) a) bps;
     findByQuery := fun q => find (fun bp => String.eqb (bp_mediaQuery bp) q) bps |}.

(* ================================================================= *)
(** ** The MediaObserver class *)

(** An instance with the collaborators it was constructed with, as it stands
    at one moment. *)
Record MediaObserver : Type := mkMediaObserver {
  filterOverlaps : bool;
  breakpoints : BreakPointRegistry;
  matchMedia : MatchMedia;
  hook : PrintHook
}.

(** The constructor; [filterOverlaps = false] is the field's initialiser. *)
Definition new_MediaObserver (bps : BreakPointRegistry) (mm : MatchMedia)
    (hk : PrintHook) : MediaObserver :=
  {| filterOverlaps := false; breakpoints := bps; matchMedia := mm; hook := hk |}.

(** [toMediaQuery(query, locator)] *)
Definition toMediaQuery (query : string) (locator : BreakPointRegistry) : string :=
  let bp :=
    match findByAlias locator query with
    | Some b => Some b
    | None => findByQuery locator query
    end in
  match bp with
  | Some b => bp_mediaQuery b
  | None => query
  end.

(** [isActive(alias)] *)
Definition isActive (this : MediaObserver) (a : string) : bool :=
  let query := toMediaQuery a (breakpoints this) in
  mm_isActive (matchMedia this) query.

(** [sortChangesByPriority(a, b)]; [None] is a [null] or [undefined] entry. *)
Definition sortChangesByPriority (a b : option MediaChange) : Z :=
  let priorityA := match a with Some a' => JS.or_num (priority a') 0 | None => 0%Z end in
  let priorityB := match b with Some b' => JS.or_num (priority b') 0 | None => 0%Z end in
  (priorityB - priorityA)%Z.

(** The local [isValidQuery] of [buildObservable]. *)
Definition isValidQuery (change : MediaChange) : bool :=
  0 <? String.length (mediaQuery change).

(** The local [hasChanges] of [buildObservable]. *)
Definition hasChanges (changes : list MediaChange) : bool :=
  0 <? List.length (List.filter isValidQuery changes).

(** The local [excludeOverlaps] of [buildObservable]. *)
Definition excludeOverlaps (this : MediaObserver) (changes : list MediaChange)
    : list MediaChange :=
  if negb (filterOverlaps this) then changes
  else List.filter (fun change =>
         let bp := findByQuery (breakpoints this) (mediaQuery change) in
         match bp with
         | None => true
         | Some b => negb (overlapping b)
         end) changes.

(** The local [mergeMQAlias] of [findAllActivations]. *)
Definition mergeMQAlias (this : MediaObserver) (change : MediaChange) : MediaChange :=
  let bp := findByQuery (breakpoints this) (mediaQuery change) in
  mergeAlias change bp.

(** The local [replaceWithPrintAlias] of [findAllActivations]. *)
Definition replaceWithPrintAlias (this : MediaObserver) (change : MediaChange)
    : MediaChange :=
  if isPrintEvent (hook this) change then updateEvent (hook this) change else change.

(** The three [map] stages of [findAllActivations], before the sort. *)
Definition annotated (this : MediaObserver) : list MediaChange :=
  List.map (mergeMQAlias this)
    (List.map (replaceWithPrintAlias this)
       (List.map (fun query => new_MediaChange true query)
          (activations (matchMedia this)))).

(** [findAllActivations()] *)
Definition findAllActivations (this : MediaObserver) : list MediaChange :=
  JS.sort (fun a b => sortChangesByPriority (Some a) (Some b)) (annotated this).

(** The observer over time: the instance and its collaborators as they stand
    at each millisecond, and the raw notifications the matcher delivers for a
    list of watched queries. *)
Record Timeline : Type := mkTimeline {
  at_time : nat -> MediaObserver;
  observe : list string -> Rx.stream MediaChange
}.

(** The operators piped onto the matcher's stream in [buildObservable]. *)
Definition pipeline (w : Timeline) (raw : Rx.stream MediaChange)
    : Rx.stream (list MediaChange) :=
  Rx.filter (fun _ changes => hasChanges changes)
    (Rx.map (fun t changes => excludeOverlaps (at_time w t) changes)
       (Rx.switchMap_of (fun t (_ : MediaChange) => findAllActivations (at_time w t))
          (Rx.debounceTime 10
             (Rx.filter (fun _ change => matches change) raw)))).

(** [buildObservable(mqList)], called once, at construction (time 0). *)
Definition buildObservable (w : Timeline) (mqList : list string)
    : Rx.stream (list MediaChange) :=
  pipeline w (observe w (withPrintQuery (hook (at_time w 0)) mqList)).

(** [watchActivations()] *)
Definition watchActivations (w : Timeline) : Rx.stream (list MediaChange) :=
  let queries := List.map bp_mediaQuery (items (breakpoints (at_time w 0))) in
  buildObservable w queries.

(** What one pass of the stages after the debounce publishes at a moment: the
    recomputed, overlap-filtered list, or nothing when [hasChanges] rejects
    it. The triggering notification is not an input. *)
Definition published (this : MediaObserver) : option (list MediaChange) :=
  let changes := excludeOverlaps this (findAllActivations this) in
  if hasChanges changes then Some changes else None.

(** The priority the comparator sees. *)
Definition effective_priority (c : MediaChange) : Z := JS.or_num (priority c) 0.

(** A burst: notifications each arriving less than [window] ms after the one
    before. *)
Fixpoint burst {A} (window : nat) (s : Rx.stream A) : Prop :=
  match s with
  | [] => True
  | (t, _) :: rest =>
      match rest with
      | [] => True
      | (t', _) :: _ => t <= t' /\ t' < t + window /\ burst window rest
      end
  end.

(* ================================================================= *)
(** ** Vocabulary of the statements *)

(** The priority of a possibly missing entry, in the spec's words: a missing
    entry and a missing priority both count as 0. *)
Definition priority_or_zero (e : option MediaChange) : Z :=
  match e with
  | Some c => match priority c with Some p => p | None => 0%Z end
  | None => 0%Z
  end.

(** In the spec's words: the query of the change resolves, through the
    registry, to a breakpoint marked overlapping. *)
Definition resolves_to_overlapping (reg : BreakPointRegistry) (c : MediaChange) : Prop :=
  exists bp, findByQuery reg (mediaQuery c) = Some bp /\ overlapping bp = true.

(** Larger keys first. *)
Definition descending {A} (key : A -> Z) (a b : A) : Prop := (key b <= key a)%Z.

(** The entry [findAllActivations] builds for one active query. *)
Definition entry_for (this : MediaObserver) (query : string) : MediaChange :=
  mergeMQAlias this (replaceWithPrintAlias this (new_MediaChange true query)).

(* ================================================================= *)
(** ** The rest of the class and its consumer *)

(** [asObservable()]: returns [_media$], which the constructor sets to
    [watchActivations()]. *)
Definition asObservable (w : Timeline) : Rx.stream (list MediaChange) :=
  watchActivations w.

(** The observer after the assignment [filterOverlaps = flag] to its public
    field. *)
Definition set_filterOverlaps (this : MediaObserver) (flag : bool) : MediaObserver :=
  {| filterOverlaps := flag; breakpoints := breakpoints this;
     matchMedia := matchMedia this; hook := hook this |}.

(** [extractQuery(change)] of [MediaQueryStatusComponent]; [None] is the
    falsy value the template passes before anything was emitted. *)
Definition extractQuery (change : option MediaChange) : string :=
  match change with
  | Some c => ("'" ++ mqAlias c ++ "' = (" ++ mediaQuery c ++ ")")%string
  | None => EmptyString
  end.

(** Notifications each arriving more than [window] ms after the one before. *)
Fixpoint separated {A} (window : nat) (s : Rx.stream A) : Prop :=
  match s with
  | [] => True
  | (t, _) :: rest =>
      match rest with
      | [] => True
      | (t', _) :: _ => t + window < t' /\ separated window rest
      end
  end.

(** The notifications of a stream are in order of arrival. *)
Definition chronological {A} (s : Rx.stream A) : Prop :=
  StronglySorted le (List.map fst s).

(** Consecutive notifications of a stream are at least [gap] ms apart. *)
Definition spaced {A} (gap : nat) (s : Rx.stream A) : Prop :=
  StronglySorted (fun t t' => t + gap <= t') (List.map fst s).

(** The comparator [findAllActivations] hands to [sort]. *)
Definition byPriority (a b : MediaChange) : Z :=
  sortChangesByPriority (Some a) (Some b).

(** Every lookup by query returns a breakpoint of that query. *)
Definition query_sound (reg : BreakPointRegistry) : Prop :=
  forall q bp, findByQuery reg q = Some bp -> bp_mediaQuery bp = q.

(** No query of a breakpoint the registry returns is also an alias. *)
Definition queries_not_aliases (reg : BreakPointRegistry) : Prop :=
  forall s bp,
    findByAlias reg s = Some bp \/ findByQuery reg s = Some bp ->
    findByAlias reg (bp_mediaQuery bp) = None.

(* ================================================================= *)
(** ** Concrete breakpoints and observers used in the examples *)

Module Fixture.
Local Open Scope string_scope.

Definition q_xs : string := "(max-width: 599px)".
Definition q_md : string := "(min-width: 960px) and (max-width: 1279px)".
Definition q_gt_sm : string := "(min-width: 960px)".
Definition q_custom : string := "(orientation: landscape)".

Definition bp_xs : BreakPoint :=
  {| alias := "xs"; bp_mediaQuery := q_xs; bp_priority := 1; overlapping := false |}.
Definition bp_md : BreakPoint :=
  {| alias := "md"; bp_mediaQuery := q_md; bp_priority := 5; overlapping := false |}.
Definition bp_gt_sm : BreakPoint :=
  {| alias := "gt-sm"; bp_mediaQuery := q_gt_sm; bp_priority := 3; overlapping := true |}.

Definition registry : BreakPointRegistry := table_registry [bp_xs; bp_md; bp_gt_sm].

(** A matcher for which exactly the queries of [active] match. *)
Definition matcher (active : list string) : MatchMedia :=
  {| activations := active;
     mm_isActive := fun q => existsb (String.eqb q) active |}.

(** A hook outside any print context. *)
Definition no_print : PrintHook :=
  {| withPrintQuery := fun queries => (queries ++ ["print"])%list;
     isPrintEvent := fun _ => false;
     updateEvent := fun change => change |}.

Definition observer (overlaps : bool) (active : list string) : MediaObserver :=
  {| filterOverlaps := overlaps; breakpoints := registry;
     matchMedia := matcher active; hook := no_print |}.

(** The annotated events of the three registered queries and of a custom one. *)
Definition ev_xs : MediaChange :=
  {| matches := true; mediaQuery := q_xs; mqAlias := "xs"; suffix := "";
     priority := Some 1%Z |}.
Definition ev_md : MediaChange :=
  {| matches := true; mediaQuery := q_md; mqAlias := "md"; suffix := "";
     priority := Some 5%Z |}.
Definition ev_gt_sm : MediaChange :=
  {| matches := true; mediaQuery := q_gt_sm; mqAlias := "gt-sm"; suffix := "";
     priority := Some 3%Z |}.

(** [q_md] starts to match at 0 ms and [q_gt_sm] at 4 ms; both still match
    when the debounce ends. *)
Definition crossing : Timeline :=
  {| at_time := fun t => observer false (if Nat.ltb t 4 then [q_md] else [q_md; q_gt_sm]);
     observe := fun _ => [(0, new_MediaChange true q_md);
                          (4, new_MediaChange true q_gt_sm)] |}.

(** [q_xs] starts to match at 0 ms and stops matching at 5 ms. *)
Definition flicker : Timeline :=
  {| at_time := fun t => observer false (if Nat.ltb t 5 then [q_xs] else []);
     observe := fun _ => [(0, new_MediaChange true q_xs);
                          (5, new_MediaChange false q_xs)] |}.

(** [q_xs] stops matching at 3 ms and nothing else changes. *)
Definition leaving : Timeline :=
  {| at_time := fun t => observer false (if Nat.ltb t 3 then [q_xs] else []);
     observe := fun _ => [(3, new_MediaChange false q_xs)] |}.
(** [q_md] starts to match at 0 ms and [q_xs] replaces it at 25 ms. *)
Definition resizing : Timeline :=
  {| at_time := fun t => observer false (if Nat.ltb t 25 then [q_md] else [q_xs]);
     observe := fun _ => [(0, new_MediaChange true q_md);
                          (25, new_MediaChange false q_md);
                          (25, new_MediaChange true q_xs)] |}.

(** A hook in a print context: the event of the query 'print' is replaced by
    one for the query of 'md'. *)
Definition printing : PrintHook :=
  {| withPrintQuery := fun queries => (queries ++ ["print"])%list;
     isPrintEvent := fun change => String.eqb (mediaQuery change) "print";
     updateEvent := fun change =>
       {| matches := matches change; mediaQuery := q_md;
          mqAlias := mqAlias change; suffix := suffix change;
          priority := priority change |} |}.

(** A custom query starts to match at 0 ms and the empty query at 2 ms. *)
Definition degenerate : Timeline :=
  {| at_time := fun t => observer false (if Nat.ltb t 2 then [q_custom] else [q_custom; ""]);
     observe := fun _ => [(0, new_MediaChange true q_custom);
                          (2, new_MediaChange true "")] |}.

(** Only the overlapping breakpoint matches, with the filter on. *)
Definition overlapping_only : Timeline :=
  {| at_time := fun _ => observer true [q_gt_sm];
     observe := fun _ => [(0, new_MediaChange true q_gt_sm)] |}.

(** A hook in a print context that keeps the query 'print', which the
    registry does not know, and names the event 'print'. *)
Definition print_named : PrintHook :=
  {| withPrintQuery := fun queries => (queries ++ ["print"])%list;
     isPrintEvent := fun change => String.eqb (mediaQuery change) "print";
     updateEvent := fun change =>
       {| matches := matches change; mediaQuery := mediaQuery change;
          mqAlias := "print"; suffix := "Print";
          priority := Some 1000%Z |} |}.

(** Observers in a print context, with the query 'print' active. *)
Definition print_observer (hk : PrintHook) : MediaObserver :=
  {| filterOverlaps := false; breakpoints := registry;
     matchMedia := matcher ["print"]; hook := hk |}.
End Fixture.

(* ================================================================= *)
(** ** Facts about the JavaScript sort *)

Section SortFacts.
Context {A : Type}.
Variable compareFn : A -> A -> Z.

Lemma insert_permutation (x : A) (l : list A) :
  Permutation (JS.insert compareFn x l) (x :: l).
Proof.
  induction l as [|y l IH]; simpl; [reflexivity|].
  destruct (0 <? compareFn x y)%Z; [|reflexivity].
  rewrite IH. apply perm_swap.
Qed.

Lemma sort_permutation (l : list A) : Permutation (JS.sort compareFn l) l.
Proof.
  induction l as [|x l IH]; simpl; [constructor|].
  rewrite insert_permutation. now constructor.
Qed.

(** The comparator orders by a numeric key, larger keys first. *)
Variable key : A -> Z.
Hypothesis compare_by_key : forall x y, compareFn x y = (key y - key x)%Z.

Lemma insert_descending (x : A) (l : list A) :
  StronglySorted (descending key) l -> StronglySorted (descending key) (JS.insert compareFn x l).
Proof.
  induction 1 as [|y l Hl IH Hy]; simpl.
  - repeat constructor.
  - rewrite compare_by_key.
    destruct (Z.ltb_spec 0 (key y - key x)) as [Hlt|Hge].
    + constructor; [exact IH|].
      eapply Permutation_Forall; [symmetry; apply insert_permutation|].
      constructor; [unfold descending; lia|exact Hy].
    + constructor; [now constructor|].
      constructor; [unfold descending; lia|].
      eapply Forall_impl; [|exact Hy]. unfold descending. intros; lia.
Qed.

Lemma sort_descending (l : list A) : StronglySorted (descending key) (JS.sort compareFn l).
Proof.
  induction l as [|x l IH]; simpl; [constructor|].
  now apply insert_descending.
Qed.

Lemma insert_stable (p : Z) (x : A) (l : list A) :
  filter (fun c => (key c =? p)%Z) (JS.insert compareFn x l)
  = filter (fun c => (key c =? p)%Z) (x :: l).
Proof.
  induction l as [|y l IH]; [reflexivity|].
  cbn [JS.insert]. rewrite compare_by_key.
  destruct (Z.ltb_spec 0 (key y - key x)) as [Hlt|Hge]; [|reflexivity].
  cbn [filter] in *. rewrite IH.
  destruct (Z.eqb_spec (key x) p), (Z.eqb_spec (key y) p); try reflexivity.
  lia.
Qed.

Lemma sort_stable (p : Z) (l : list A) :
  filter (fun c => (key c =? p)%Z) (JS.sort compareFn l)
  = filter (fun c => (key c =? p)%Z) l.
Proof.
  induction l as [|x l IH]; [reflexivity|].
  cbn [JS.sort fold_right]. rewrite insert_stable.
  cbn [filter]. fold (JS.sort compareFn l). now rewrite IH.
Qed.

Lemma filter_descending (f : A -> bool) (l : list A) :
  StronglySorted (descending key) l -> StronglySorted (descending key) (filter f l).
Proof.
  induction 1 as [|y l Hl IH Hy]; simpl; [constructor|].
  destruct (f y); [|exact IH].
  constructor; [exact IH|].
  rewrite Forall_forall in *. intros z Hz.
  apply filter_In in Hz. now apply Hy.
Qed.
Lemma filter_key_head (p : Z) (x z : A) (l r : list A) :
  StronglySorted (descending key) (x :: l) ->
  filter (fun c => (key c =? p)%Z) (x :: l) = z :: r ->
  (p <= key x)%Z.
Proof.
  intros Hs Hf.
  assert (Hz : In z (filter (fun c => (key c =? p)%Z) (x :: l)))
    by (rewrite Hf; now left).
  apply filter_In in Hz as [Hin Hk]. apply Z.eqb_eq in Hk. subst p.
  destruct Hin as [->|Hin]; [lia|].
  apply StronglySorted_inv in Hs as [_ Hall].
  rewrite Forall_forall in Hall. now apply Hall.
Qed.

(** Two lists in descending order of key that agree, key by key, on the
    order of their entries are the same list. *)
Lemma stable_sorted_unique (l1 l2 : list A) :
  StronglySorted (descending key) l1 ->
  StronglySorted (descending key) l2 ->
  (forall p, filter (fun c => (key c =? p)%Z) l1
             = filter (fun c => (key c =? p)%Z) l2) ->
  l1 = l2.
Proof.
  revert l2. induction l1 as [|x l1 IH]; intros [|y l2] H1 H2 Hf.
  - reflexivity.
  - specialize (Hf (key y)). cbn [filter] in Hf.
    rewrite Z.eqb_refl in Hf. discriminate.
  - specialize (Hf (key x)). cbn [filter] in Hf.
    rewrite Z.eqb_refl in Hf. discriminate.
  - assert (Hxy : key x = key y).
    { pose proof (Hf (key x)) as Hx. pose proof (Hf (key y)) as Hy.
      assert (key x <= key y)%Z.
      { eapply filter_key_head; [exact H2|]. rewrite <- Hx.
        cbn [filter]. rewrite Z.eqb_refl. reflexivity. }
      assert (key y <= key x)%Z.
      { eapply filter_key_head; [exact H1|]. rewrite Hy.
        cbn [filter]. rewrite Z.eqb_refl. reflexivity. }
      lia. }
    pose proof (Hf (key x)) as Hx. cbn [filter] in Hx.
    rewrite <- Hxy, Z.eqb_refl in Hx. injection Hx as -> _.
    f_equal. apply IH.
    + now apply StronglySorted_inv in H1.
    + now apply StronglySorted_inv in H2.
    + intros p. specialize (Hf p). cbn [filter] in Hf.
      destruct (key y =? p)%Z; [now injection Hf|exact Hf].
Qed.

(** The result of the sort is fixed by the two properties ECMAScript asks
    of it, whatever algorithm an engine uses. *)
Lemma sort_unique (l sorted : list A) :
  StronglySorted (descending key) sorted ->
  (forall p, filter (fun c => (key c =? p)%Z) sorted
             = filter (fun c => (key c =? p)%Z) l) ->
  sorted = JS.sort compareFn l.
Proof.
  intros Hs Hf. apply stable_sorted_unique; [exact Hs|apply sort_descending|].
  intros p. now rewrite Hf, sort_stable.
Qed.
End SortFacts.

(* ================================================================= *)
(** ** The comparator *)

Lemma or_num_zero (x : option Z) :
  JS.or_num x 0 = match x with Some p => p | None => 0%Z end.
Proof.
  destruct x as [p|]; simpl; [|reflexivity].
  destruct (Z.eqb_spec p 0); congruence.
Qed.

Lemma effective_priority_eq (c : MediaChange) :
  effective_priority c = priority_or_zero (Some c).
Proof. apply or_num_zero. Qed.

(** C10. [sortChangesByPriority] returns a number for every pair of
    arguments, [null]/[undefined] entries and entries without a priority
    included: the difference (priority of [b]) - (priority of [a]), where a
    missing entry or a missing or falsy priority counts as 0. In particular a
    [null] entry compares like an entry of priority 0. *)
Theorem sortChangesByPriority_total (a b : option MediaChange) :
  sortChangesByPriority a b = (priority_or_zero b - priority_or_zero a)%Z
  /\ sortChangesByPriority None b = sortChangesByPriority (Some (new_MediaChange true EmptyString)) b
  /\ sortChangesByPriority a None = sortChangesByPriority a (Some (new_MediaChange true EmptyString)).
Proof.
  assert (H : forall x y,
             sortChangesByPriority x y = (priority_or_zero y - priority_or_zero x)%Z).
  { intros [x|] [y|]; unfold sortChangesByPriority, priority_or_zero;
      rewrite ?or_num_zero; reflexivity. }
  repeat split; rewrite ?H; reflexivity.
Qed.

Lemma compare_by_effective_priority (a b : MediaChange) :
  sortChangesByPriority (Some a) (Some b)
  = (effective_priority b - effective_priority a)%Z.
Proof. reflexivity. Qed.

(* ================================================================= *)
(** ** Overlap filtering *)

Lemma excludeOverlaps_on (this : MediaObserver) (changes : list MediaChange) (c : MediaChange) :
  filterOverlaps this = true ->
  (In c (excludeOverlaps this changes)
   <-> In c changes /\ ~ resolves_to_overlapping (breakpoints this) c).
Proof.
  intros Hon. unfold excludeOverlaps, resolves_to_overlapping.
  rewrite Hon. cbn [negb]. rewrite filter_In.
  destruct (findByQuery (breakpoints this) (mediaQuery c)) as [bp|] eqn:Hbp.
  - destruct (overlapping bp) eqn:Hov; cbn [negb]; split; intros [Hin H]; split; auto.
    + discriminate.
    + exfalso. apply H. now exists bp.
    + intros (bp' & Heq & Hov'). congruence.
  - split; intros [Hin _]; split; auto.
    intros (bp' & Heq & _). discriminate.
Qed.

Lemma excludeOverlaps_incl (this : MediaObserver) (changes : list MediaChange) (c : MediaChange) :
  In c (excludeOverlaps this changes) -> In c changes.
Proof.
  unfold excludeOverlaps. destruct (negb (filterOverlaps this)); [auto|].
  now intros H%filter_In.
Qed.

Lemma excludeOverlaps_keeps_unregistered (this : MediaObserver)
    (changes : list MediaChange) (c : MediaChange) :
  In c changes -> findByQuery (breakpoints this) (mediaQuery c) = None ->
  In c (excludeOverlaps this changes).
Proof.
  intros Hin Hnone. unfold excludeOverlaps.
  destruct (negb (filterOverlaps this)); [exact Hin|].
  apply filter_In. split; [exact Hin|]. now rewrite Hnone.
Qed.

(** C3. With [filterOverlaps = true] the entries of the list that remain are
    exactly those whose query does not resolve, through the registry, to a
    breakpoint with [overlapping = true]; an entry whose query has no
    breakpoint in the registry is kept whatever the flag; with
    [filterOverlaps = false], which is the value a new observer has, the list
    passes through unchanged. *)
Theorem excludeOverlaps_filtering (this : MediaObserver) (changes : list MediaChange) :
  (filterOverlaps this = true ->
     forall c, In c (excludeOverlaps this changes)
               <-> In c changes /\ ~ resolves_to_overlapping (breakpoints this) c)
  /\ (forall c, In c changes ->
        findByQuery (breakpoints this) (mediaQuery c) = None ->
        In c (excludeOverlaps this changes))
  /\ (filterOverlaps this = false -> excludeOverlaps this changes = changes)
  /\ filterOverlaps
       (new_MediaObserver (breakpoints this) (matchMedia this) (hook this)) = false.
Proof.
  split; [|split; [|split]].
  - intros Hon c. now apply excludeOverlaps_on.
  - intros c. apply excludeOverlaps_keeps_unregistered.
  - intros Hoff. unfold excludeOverlaps. now rewrite Hoff.
  - reflexivity.
Qed.

(** The spec's example: A overlapping and B not, both matching. With the
    filter on only B is left, with the filter off both are. *)
Lemma excludeOverlaps_filtering_witness :
  excludeOverlaps (Fixture.observer true [Fixture.q_gt_sm; Fixture.q_md])
    [Fixture.ev_md; Fixture.ev_gt_sm] = [Fixture.ev_md]
  /\ excludeOverlaps (Fixture.observer false [Fixture.q_gt_sm; Fixture.q_md])
       [Fixture.ev_md; Fixture.ev_gt_sm] = [Fixture.ev_md; Fixture.ev_gt_sm]
  /\ In Fixture.ev_md
       (excludeOverlaps (Fixture.observer true [Fixture.q_gt_sm; Fixture.q_md])
          [Fixture.ev_md; Fixture.ev_gt_sm]).
Proof.
  split; [reflexivity|]. split.
  - destruct (excludeOverlaps_filtering
                (Fixture.observer false [Fixture.q_gt_sm; Fixture.q_md])
                [Fixture.ev_md; Fixture.ev_gt_sm]) as (_ & _ & Hoff & _).
    apply Hoff. reflexivity.
  - destruct (excludeOverlaps_filtering
                (Fixture.observer true [Fixture.q_gt_sm; Fixture.q_md])
                [Fixture.ev_md; Fixture.ev_gt_sm]) as (Hon & _).
    apply Hon; [reflexivity|].
    split; [now left|].
    intros (bp & Hbp & Hov). vm_compute in Hbp.
    injection Hbp as <-. discriminate.
Defined.

(* ================================================================= *)
(** ** The stages after the debounce *)

(** Each notification that leaves the debounce is answered by what
    [published] gives for the observer as it stands at that moment. *)
Lemma pipeline_published (w : Timeline) (raw : Rx.stream MediaChange) :
  pipeline w raw
  = flat_map (fun e => match published (at_time w (fst e)) with
                       | Some changes => [(fst e, changes)]
                       | None => []
                       end)
      (Rx.debounceTime 10 (Rx.filter (fun _ change => matches change) raw)).
Proof.
  unfold pipeline, Rx.switchMap_of, Rx.map, Rx.filter at 1.
  induction (Rx.debounceTime 10 (Rx.filter (fun _ change => matches change) raw))
    as [|[t c] s IH]; [reflexivity|].
  cbn [List.map List.filter flat_map fst snd]. rewrite IH.
  unfold published. now destruct (hasChanges _).
Qed.

Lemma hasChanges_true (changes : list MediaChange) :
  hasChanges changes = true
  <-> exists c, In c changes /\ mediaQuery c <> EmptyString.
Proof.
  unfold hasChanges. rewrite Nat.ltb_lt. split.
  - intros Hlen.
    destruct (filter isValidQuery changes) as [|c l] eqn:Hf; [simpl in Hlen; lia|].
    assert (Hc : In c (filter isValidQuery changes)) by (rewrite Hf; now left).
    apply filter_In in Hc as [Hin Hq]. exists c. split; [exact Hin|].
    unfold isValidQuery in Hq. apply Nat.ltb_lt in Hq.
    intros Heq. rewrite Heq in Hq. simpl in Hq. lia.
  - intros (c & Hin & Hq).
    assert (Hc : In c (filter isValidQuery changes)).
    { apply filter_In. split; [exact Hin|]. unfold isValidQuery. apply Nat.ltb_lt.
      destruct (mediaQuery c); [congruence|simpl; lia]. }
    destruct (filter isValidQuery changes); [destruct Hc|simpl; lia].
Qed.

Lemma published_some (this : MediaObserver) (changes : list MediaChange) :
  published this = Some changes ->
  changes = excludeOverlaps this (findAllActivations this)
  /\ hasChanges changes = true.
Proof.
  unfold published.
  destruct (hasChanges (excludeOverlaps this (findAllActivations this))) eqn:Hh;
    [|discriminate].
  intros [= <-]. now split.
Qed.

Lemma pipeline_emission (w : Timeline) (raw : Rx.stream MediaChange)
    (t : nat) (changes : list MediaChange) :
  In (t, changes) (pipeline w raw) <->
  published (at_time w t) = Some changes
  /\ exists c, In (t, c) (Rx.debounceTime 10
                            (Rx.filter (fun _ change => matches change) raw)).
Proof.
  rewrite pipeline_published, in_flat_map. split.
  - intros ([t' c] & Hin & He). cbn [fst] in He.
    destruct (published (at_time w t')) as [l|] eqn:Hp; [|destruct He].
    destruct He as [[= <- <-]|[]]. split; [exact Hp|eauto].
  - intros (Hp & c & Hin). exists (t, c). split; [exact Hin|].
    cbn [fst]. rewrite Hp. now left.
Qed.

Lemma published_iff (this : MediaObserver) (changes : list MediaChange) :
  published this = Some changes
  <-> changes = excludeOverlaps this (findAllActivations this)
      /\ exists c, In c changes /\ mediaQuery c <> EmptyString.
Proof.
  unfold published.
  destruct (hasChanges (excludeOverlaps this (findAllActivations this))) eqn:Hh.
  - pose proof (proj1 (hasChanges_true _) Hh) as Hex. split.
    + intros [= <-]. now split.
    + intros [-> _]. reflexivity.
  - split; [discriminate|]. intros [-> Hex].
    apply hasChanges_true in Hex. congruence.
Qed.

(** C6. When a notification leaves the debounce, at time [t], the pipe emits
    a list at [t] if and only if, after overlap filtering, at least one entry
    of the recomputed list has a non-empty [mediaQuery]; what it emits then is
    that filtered list. In particular it emits nothing when the filtering
    leaves no entry. *)
Theorem emitted_iff_valid_query (w : Timeline) (raw : Rx.stream MediaChange)
    (t : nat) (signal : MediaChange) :
  In (t, signal)
     (Rx.debounceTime 10 (Rx.filter (fun _ change => matches change) raw)) ->
  let filtered :=
    excludeOverlaps (at_time w t) (findAllActivations (at_time w t)) in
  (forall changes,
     In (t, changes) (pipeline w raw)
     <-> changes = filtered
         /\ exists c, In c changes /\ mediaQuery c <> EmptyString)
  /\ ((exists changes, In (t, changes) (pipeline w raw))
      <-> exists c, In c filtered /\ mediaQuery c <> EmptyString)
  /\ (filtered = [] -> forall changes, ~ In (t, changes) (pipeline w raw)).
Proof.
  intros Hd filtered.
  assert (Hiff : forall changes,
             In (t, changes) (pipeline w raw)
             <-> changes = filtered
                 /\ exists c, In c changes /\ mediaQuery c <> EmptyString).
  { intros changes. rewrite pipeline_emission, published_iff. fold filtered.
    split; [intros [H _]; exact H|intros H; split; [exact H|now exists signal]]. }
  split; [exact Hiff|]. split.
  - split.
    + intros [changes Hin]. apply Hiff in Hin as [-> Hex]. exact Hex.
    + intros Hex. exists filtered. apply Hiff. now split.
  - intros Hnil changes Hin. apply Hiff in Hin as [-> (c & Hc & _)].
    rewrite Hnil in Hc. destruct Hc.
Qed.

(** Two queries start to match 4 ms apart: the list with both is emitted at
    14 ms. With the filter on and only an overlapping breakpoint active, the
    filtering leaves nothing and nothing is emitted at 10 ms. *)
Lemma emitted_iff_valid_query_witness :
  In (14, [Fixture.ev_md; Fixture.ev_gt_sm]) (asObservable Fixture.crossing)
  /\ forall changes, ~ In (10, changes) (asObservable Fixture.overlapping_only).
Proof.
  split.
  - apply (emitted_iff_valid_query Fixture.crossing
             (observe Fixture.crossing []) 14
             (new_MediaChange true Fixture.q_gt_sm)); [now left|].
    split; [reflexivity|].
    exists Fixture.ev_md. split; [now left|discriminate].
  - apply (emitted_iff_valid_query Fixture.overlapping_only
             (observe Fixture.overlapping_only []) 10
             (new_MediaChange true Fixture.q_gt_sm)); [now left|reflexivity].
Defined.

(** C9. The check for a non-empty query only decides whether the list is
    emitted: when a notification leaves the debounce and one entry of the
    overlap-filtered list has a non-empty [mediaQuery], the pipe emits that
    list in full, with every entry of it, so also with the entries whose
    [mediaQuery] is the empty string, which [isValidQuery] rejects. *)
Theorem hasChanges_gates_whole_list (w : Timeline) (raw : Rx.stream MediaChange)
    (t : nat) (signal c : MediaChange) :
  In (t, signal)
     (Rx.debounceTime 10 (Rx.filter (fun _ change => matches change) raw)) ->
  let filtered :=
    excludeOverlaps (at_time w t) (findAllActivations (at_time w t)) in
  In c filtered ->
  mediaQuery c <> EmptyString ->
  In (t, filtered) (pipeline w raw)
  /\ forall changes,
       In (t, changes) (pipeline w raw) ->
       changes = filtered
       /\ forall e, In e filtered -> mediaQuery e = EmptyString ->
                    In e changes /\ isValidQuery e = false.
Proof.
  intros Hd filtered Hc Hq.
  assert (Hp : published (at_time w t) = Some filtered).
  { apply published_iff. split; [reflexivity|]. now exists c. }
  split.
  - apply pipeline_emission. split; [exact Hp|now exists signal].
  - intros changes Hin. apply pipeline_emission in Hin as [Hp' _].
    assert (changes = filtered) as -> by congruence.
    split; [reflexivity|]. intros e He Hempty. split; [exact He|].
    unfold isValidQuery. now rewrite Hempty.
Qed.

(** A custom query and the empty query both match: the list is emitted with
    the entry of the empty query in it. *)
Lemma hasChanges_gates_whole_list_witness :
  In (12, [new_MediaChange true Fixture.q_custom; new_MediaChange true EmptyString])
     (asObservable Fixture.degenerate).
Proof.
  apply (hasChanges_gates_whole_list Fixture.degenerate
           (observe Fixture.degenerate []) 12
           (new_MediaChange true EmptyString)
           (new_MediaChange true Fixture.q_custom)).
  - left. reflexivity.
  - left. reflexivity.
  - discriminate.
Defined.

(* ================================================================= *)
(** ** The point query *)

Lemma toMediaQuery_cases (s : string) (locator : BreakPointRegistry) :
  toMediaQuery s locator
  = match findByAlias locator s, findByQuery locator s with
    | Some bp, _ => bp_mediaQuery bp
    | None, Some bp => bp_mediaQuery bp
    | None, None => s
    end.
Proof.
  unfold toMediaQuery.
  destruct (findByAlias locator s); [reflexivity|].
  now destruct (findByQuery locator s).
Qed.

(** C8. [isActive(s)] resolves [s] through the registry, by alias first and
    by query second, takes the query of the breakpoint found, or [s] itself
    when neither lookup finds one, and returns the matcher's current state of
    that query. The answer is read from the registry and the matcher as they
    stand: observers that agree on these two give the same answer, whatever
    their overlap flag, their print hook, and the notifications received or
    the lists emitted so far. *)
Theorem isActive_reads_matcher (this : MediaObserver) (s : string) :
  isActive this s
  = mm_isActive (matchMedia this)
      (match findByAlias (breakpoints this) s, findByQuery (breakpoints this) s with
       | Some bp, _ => bp_mediaQuery bp
       | None, Some bp => bp_mediaQuery bp
       | None, None => s
       end)
  /\ (forall (w : Timeline) (t : nat),
        breakpoints (at_time w t) = breakpoints this ->
        matchMedia (at_time w t) = matchMedia this ->
        isActive (at_time w t) s = isActive this s).
Proof.
  split.
  - unfold isActive. now rewrite toMediaQuery_cases.
  - intros w t Hb Hm. unfold isActive. now rewrite Hb, Hm.
Qed.

(** [isActive('xs')] follows the matcher on a timeline on which nothing is
    ever emitted. *)
Lemma isActive_reads_matcher_witness :
  watchActivations Fixture.leaving = []
  /\ isActive (at_time Fixture.leaving 0) "xs" = true
  /\ isActive (at_time Fixture.leaving 3) "xs" = false
  /\ isActive (at_time Fixture.leaving 0) "xs"
     = isActive (Fixture.observer true [Fixture.q_xs]) "xs".
Proof.
  split; [reflexivity|]. split; [reflexivity|]. split; [reflexivity|].
  apply (proj2 (isActive_reads_matcher (Fixture.observer true [Fixture.q_xs]) "xs")
           Fixture.leaving 0); reflexivity.
Defined.

(* ================================================================= *)
(** ** Priority order *)

Lemma excludeOverlaps_is_filter (this : MediaObserver) :
  exists keep, forall changes, excludeOverlaps this changes = filter keep changes.
Proof.
  unfold excludeOverlaps. destruct (negb (filterOverlaps this)).
  - exists (fun _ => true). intros changes.
    induction changes as [|c l IH]; simpl; congruence.
  - eexists. intros changes. reflexivity.
Qed.

Lemma filter_swap {A} (f g : A -> bool) (l : list A) :
  filter f (filter g l) = filter g (filter f l).
Proof.
  induction l as [|x l IH]; [reflexivity|]. simpl.
  destruct (f x) eqn:Hf, (g x) eqn:Hg; simpl; rewrite ?Hf, ?Hg, IH; reflexivity.
Qed.

Lemma findAllActivations_descending (this : MediaObserver) :
  StronglySorted (descending effective_priority) (findAllActivations this).
Proof.
  apply sort_descending. intros a b. apply compare_by_effective_priority.
Qed.

Lemma findAllActivations_stable (this : MediaObserver) (p : Z) :
  filter (fun c => (effective_priority c =? p)%Z) (findAllActivations this)
  = filter (fun c => (effective_priority c =? p)%Z) (annotated this).
Proof.
  apply sort_stable. intros a b. apply compare_by_effective_priority.
Qed.

(** C2. Every emitted list is in descending order of priority, and its
    entries of one same priority stand in the order they had before the sort:
    with the queries of priorities 1, 5 and 3 active, in that order, the list
    emitted has the priorities 5, 3, 1. *)
Theorem emitted_sorted_by_priority (this : MediaObserver) (changes : list MediaChange) :
  published this = Some changes ->
  StronglySorted (descending effective_priority) changes
  /\ forall p : Z,
       filter (fun c => (effective_priority c =? p)%Z) changes
       = filter (fun c => (effective_priority c =? p)%Z)
           (excludeOverlaps this (annotated this)).
Proof.
  intros Hp. apply published_some in Hp as [-> _].
  destruct (excludeOverlaps_is_filter this) as [keep Hkeep].
  rewrite !Hkeep. split.
  - apply filter_descending, findAllActivations_descending.
  - intros p. rewrite filter_swap, findAllActivations_stable. apply filter_swap.
Qed.

Lemma emitted_sorted_by_priority_witness :
  published (Fixture.observer false [Fixture.q_xs; Fixture.q_md; Fixture.q_gt_sm])
  = Some [Fixture.ev_md; Fixture.ev_gt_sm; Fixture.ev_xs]
  /\ List.map effective_priority [Fixture.ev_md; Fixture.ev_gt_sm; Fixture.ev_xs]
     = [5; 3; 1]%Z
  /\ StronglySorted (descending effective_priority)
       [Fixture.ev_md; Fixture.ev_gt_sm; Fixture.ev_xs].
Proof.
  split; [reflexivity|]. split; [reflexivity|].
  apply (emitted_sorted_by_priority
           (Fixture.observer false [Fixture.q_xs; Fixture.q_md; Fixture.q_gt_sm])).
  reflexivity.
Defined.

(** Two custom queries, both of priority 0, stay in the matcher's order
    behind a registered breakpoint of priority 1 that matched last. *)
Example equal_priorities_keep_order :
  published (Fixture.observer false [Fixture.q_custom; "print"%string; Fixture.q_xs])
  = Some [Fixture.ev_xs; new_MediaChange true Fixture.q_custom;
          new_MediaChange true "print"%string].
Proof. reflexivity. Qed.

(* ================================================================= *)
(** ** Recomputation from the matcher *)

Lemma findAllActivations_permutation (this : MediaObserver) :
  Permutation (findAllActivations this)
    (List.map (entry_for this) (activations (matchMedia this))).
Proof.
  unfold findAllActivations, annotated. rewrite sort_permutation.
  rewrite !List.map_map. reflexivity.
Qed.

(** C1 (as amended). Whenever a list is published, at time [t], it is the
    overlap-filtered form of a list recomputed in full from the matcher's
    activation set at [t]: the recomputed list holds exactly one entry per
    query of [matchMedia.activations], built as [MediaChange(true, query)],
    replaced by the print hook's event when [isPrintEvent] holds of it, and
    only then merged with the breakpoint the registry finds for its query.
    With [filterOverlaps = false] the published list is that list itself.
    Nothing of the triggering notification or of earlier emissions enters. *)
Theorem published_recomputed_in_full (w : Timeline) (raw : Rx.stream MediaChange)
    (t : nat) (changes : list MediaChange) :
  In (t, changes) (pipeline w raw) ->
  let this := at_time w t in
  let recomputed := findAllActivations this in
  changes = excludeOverlaps this recomputed
  /\ Permutation recomputed
       (List.map
          (fun query =>
             let change := new_MediaChange true query in
             let change' :=
               if isPrintEvent (hook this) change
               then updateEvent (hook this) change else change in
             mergeAlias change' (findByQuery (breakpoints this) (mediaQuery change')))
          (activations (matchMedia this)))
  /\ List.length recomputed = List.length (activations (matchMedia this))
  /\ (filterOverlaps this = false -> changes = recomputed).
Proof.
  intros Hin this recomputed.
  apply pipeline_emission in Hin as [Hp _].
  apply published_some in Hp as [Hc _]. fold this in Hc.
  pose proof (findAllActivations_permutation this) as Hperm.
  split; [exact Hc|]. split; [exact Hperm|]. split.
  - apply Permutation_length in Hperm. now rewrite length_map in Hperm.
  - intros Hoff. rewrite Hc. unfold excludeOverlaps. now rewrite Hoff.
Qed.

(** Two queries start to match within one window; the list published at the
    end of the window has both, although the second notification alone
    triggered it. *)
Lemma published_recomputed_in_full_witness :
  In (14, [Fixture.ev_md; Fixture.ev_gt_sm]) (watchActivations Fixture.crossing)
  /\ [Fixture.ev_md; Fixture.ev_gt_sm]
     = findAllActivations (at_time Fixture.crossing 14).
Proof.
  split; [left; reflexivity|].
  apply (published_recomputed_in_full Fixture.crossing
           (observe Fixture.crossing
              (withPrintQuery (hook (at_time Fixture.crossing 0))
                 (List.map bp_mediaQuery
                    (items (breakpoints (at_time Fixture.crossing 0))))))
           14 [Fixture.ev_md; Fixture.ev_gt_sm]).
  - left. reflexivity.
  - reflexivity.
Defined.

(** C1 (as stated) fails: with [filterOverlaps = true] the published list has
    no entry for an active query whose breakpoint is overlapping. *)
Lemma published_not_one_per_activation :
  ~ (forall (this : MediaObserver) (changes : list MediaChange),
       published this = Some changes ->
       Permutation changes
         (List.map (entry_for this) (activations (matchMedia this)))).
Proof.
  intros H.
  specialize (H (Fixture.observer true [Fixture.q_gt_sm; Fixture.q_md])
                [Fixture.ev_md] eq_refl).
  apply Permutation_length in H. discriminate H.
Qed.

(* ================================================================= *)
(** ** Alias resolution *)

Lemma mergeAlias_mediaQuery (dest : MediaChange) (source : OptionalBreakPoint) :
  mediaQuery (mergeAlias dest source) = mediaQuery dest.
Proof. now destruct source. Qed.

Lemma emitted_entry_origin (this : MediaObserver) (changes : list MediaChange)
    (c : MediaChange) :
  published this = Some changes -> In c changes ->
  exists query, In query (activations (matchMedia this)) /\ c = entry_for this query.
Proof.
  intros Hp Hin. apply published_some in Hp as [-> _].
  apply excludeOverlaps_incl in Hin.
  eapply Permutation_in in Hin; [|apply findAllActivations_permutation].
  apply in_map_iff in Hin as (query & Heq & Hq). eauto.
Qed.

Lemma entry_for_registered (this : MediaObserver) (query : string) (bp : BreakPoint) :
  findByQuery (breakpoints this) (mediaQuery (entry_for this query)) = Some bp ->
  mqAlias (entry_for this query) = alias bp
  /\ priority (entry_for this query) = Some (bp_priority bp).
Proof.
  unfold entry_for, mergeMQAlias. rewrite mergeAlias_mediaQuery.
  intros ->. now split.
Qed.

Lemma entry_for_unregistered (this : MediaObserver) (query : string) :
  isPrintEvent (hook this) (new_MediaChange true query) = false ->
  findByQuery (breakpoints this) query = None ->
  entry_for this query = new_MediaChange true query.
Proof.
  intros Hnp Hnone. unfold entry_for, mergeMQAlias, replaceWithPrintAlias.
  rewrite Hnp. cbn [mediaQuery new_MediaChange]. now rewrite Hnone.
Qed.

(** C7 (as amended). In every emitted list, an entry whose [mediaQuery] has a
    breakpoint in the registry carries the alias and the priority of that
    breakpoint. The entry of an active query that has no breakpoint in the
    registry and whose event the print hook does not report as a print event
    is the plain [MediaChange(true, query)], with [mqAlias = ''] and priority
    0, and it is part of the emitted list. *)
Theorem emitted_alias_resolution (this : MediaObserver) (changes : list MediaChange) :
  published this = Some changes ->
  (forall c bp,
     In c changes ->
     findByQuery (breakpoints this) (mediaQuery c) = Some bp ->
     mqAlias c = alias bp /\ priority c = Some (bp_priority bp))
  /\ (forall query,
        In query (activations (matchMedia this)) ->
        isPrintEvent (hook this) (new_MediaChange true query) = false ->
        findByQuery (breakpoints this) query = None ->
        entry_for this query = new_MediaChange true query
        /\ In (entry_for this query) changes
        /\ mqAlias (entry_for this query) = EmptyString
        /\ priority (entry_for this query) = Some 0%Z).
Proof.
  intros Hp. split.
  - intros c bp Hin Hbp.
    destruct (emitted_entry_origin this changes c Hp Hin) as (query & _ & ->).
    now apply entry_for_registered.
  - intros query Hq Hnp Hnone.
    pose proof (entry_for_unregistered this query Hnp Hnone) as He.
    split; [exact He|]. rewrite He. split; [|now split].
    apply published_some in Hp as [-> _].
    apply excludeOverlaps_keeps_unregistered; [|exact Hnone].
    eapply Permutation_in; [symmetry; apply findAllActivations_permutation|].
    rewrite <- He. now apply in_map.
Qed.

(** A registered and a custom query match: the first entry carries the alias
    'md' and priority 5, the second an empty alias and priority 0. *)
Lemma emitted_alias_resolution_witness :
  published (Fixture.observer true [Fixture.q_custom; Fixture.q_md])
  = Some [Fixture.ev_md; new_MediaChange true Fixture.q_custom]
  /\ (mqAlias Fixture.ev_md = alias Fixture.bp_md
      /\ priority Fixture.ev_md = Some (bp_priority Fixture.bp_md))
  /\ In (entry_for (Fixture.observer true [Fixture.q_custom; Fixture.q_md])
           Fixture.q_custom)
        [Fixture.ev_md; new_MediaChange true Fixture.q_custom].
Proof.
  destruct (emitted_alias_resolution
              (Fixture.observer true [Fixture.q_custom; Fixture.q_md])
              [Fixture.ev_md; new_MediaChange true Fixture.q_custom]
              eq_refl) as [Hreg Hcustom].
  split; [reflexivity|]. split.
  - apply Hreg; [now left|reflexivity].
  - apply (Hcustom Fixture.q_custom); [now left|reflexivity|reflexivity].
Defined.

(** C7 (as stated) fails for the events the print hook substitutes. In a
    print context the active query 'print' has no breakpoint in the registry,
    yet its entry is the hook's event: with a hook that substitutes the
    breakpoint 'md' it carries the alias 'md' and priority 5; with a hook that
    keeps the query and names the event, the emitted entry has an
    unregistered [mediaQuery] and the alias 'print'. *)
Lemma unregistered_entry_with_alias :
  ~ (forall (this : MediaObserver) (changes : list MediaChange) (query : string),
       published this = Some changes ->
       In query (activations (matchMedia this)) ->
       findByQuery (breakpoints this) query = None ->
       mqAlias (entry_for this query) = EmptyString
       /\ priority (entry_for this query) = Some 0%Z)
  /\ ~ (forall (this : MediaObserver) (changes : list MediaChange) (c : MediaChange),
          published this = Some changes ->
          In c changes ->
          findByQuery (breakpoints this) (mediaQuery c) = None ->
          mqAlias c = EmptyString /\ priority c = Some 0%Z).
Proof.
  split; intros H.
  - destruct (H (Fixture.print_observer Fixture.printing) [Fixture.ev_md]
                "print"%string eq_refl (or_introl eq_refl) eq_refl) as [Ha _].
    discriminate Ha.
  - destruct (H (Fixture.print_observer Fixture.print_named)
                [entry_for (Fixture.print_observer Fixture.print_named) "print"%string]
                (entry_for (Fixture.print_observer Fixture.print_named) "print"%string)
                eq_refl (or_introl eq_refl) eq_refl) as [Ha _].
    discriminate Ha.
Qed.

(* ================================================================= *)
(** ** The debounce *)

Lemma debounceTime_origin {A} (d : nat) (s : Rx.stream A) (t : nat) (v : A) :
  In (t, v) (Rx.debounceTime d s) -> exists t0, In (t0, v) s /\ t = t0 + d.
Proof.
  induction s as [|[t1 v1] rest IH]; [intros []|].
  cbn [Rx.debounceTime]. destruct rest as [|[t2 v2] rest'].
  - intros [[= <- <-]|[]]. exists t1. split; [now left|reflexivity].
  - destruct (t2 <=? t1 + d).
    + intros H. destruct (IH H) as (t0 & Hin & ->). exists t0. split; [now right|reflexivity].
    + intros [[= <- <-]|H].
      * exists t1. split; [now left|reflexivity].
      * destruct (IH H) as (t0 & Hin & ->). exists t0. split; [now right|reflexivity].
Qed.

(** A burst leaves the debounce as one notification, [d] ms after its last
    arrival. *)
Lemma debounceTime_burst {A} (d : nat) (s : Rx.stream A) :
  s <> [] -> burst d s ->
  exists v, In (Rx.last_time s, v) s
            /\ Rx.debounceTime d s = [(Rx.last_time s + d, v)].
Proof.
  induction s as [|[t1 v1] rest IH]; [congruence|]. intros _ Hb.
  destruct rest as [|[t2 v2] rest'].
  - exists v1. split; [now left|reflexivity].
  - cbn [burst] in Hb. destruct Hb as (_ & Hlt & Hb).
    destruct IH as (v & Hin & Heq); [discriminate|exact Hb|].
    exists v. split; [now right|].
    change (Rx.debounceTime d ((t1, v1) :: (t2, v2) :: rest'))
      with (if t2 <=? t1 + d then Rx.debounceTime d ((t2, v2) :: rest')
            else (t1 + d, v1) :: Rx.debounceTime d ((t2, v2) :: rest')).
    assert (Hle : (t2 <=? t1 + d) = true) by (apply Nat.leb_le; lia).
    rewrite Hle. exact Heq.
Qed.

Lemma rx_filter_idempotent {A} (p : nat -> A -> bool) (s : Rx.stream A) :
  Rx.filter p (Rx.filter p s) = Rx.filter p s.
Proof.
  unfold Rx.filter. induction s as [|e s IH]; [reflexivity|].
  cbn [filter]. destruct (p (fst e) (snd e)) eqn:Hp; [|exact IH].
  cbn [filter]. now rewrite Hp, IH.
Qed.

(** C5. Only notifications with [matches = true] reach the debounce and the
    recomputation: the emissions are those of the activation notifications
    alone, every emission comes 10 ms after an activation notification, and
    a stream of deactivations only, such as the deactivation of the one
    active query, produces no emission. *)
Theorem deactivations_never_emit (w : Timeline) (raw : Rx.stream MediaChange) :
  pipeline w raw = pipeline w (Rx.filter (fun _ change => matches change) raw)
  /\ (forall t changes,
        In (t, changes) (pipeline w raw) ->
        exists t0 c, In (t0, c) raw /\ matches c = true /\ t = t0 + 10)
  /\ ((forall t c, In (t, c) raw -> matches c = false) -> pipeline w raw = []).
Proof.
  split; [|split].
  - unfold pipeline. now rewrite rx_filter_idempotent.
  - intros t changes Hin.
    apply pipeline_emission in Hin as (_ & c & Hin).
    destruct (debounceTime_origin _ _ _ _ Hin) as (t0 & Hin0 & ->).
    clear Hin. rename Hin0 into Hin.
    apply filter_In in Hin as [Hin Hm]. exists t0, c. auto.
  - intros Hall. rewrite pipeline_published.
    replace (Rx.filter (fun _ change => matches change) raw) with (@nil (nat * MediaChange));
      [reflexivity|].
    unfold Rx.filter. induction raw as [|[t c] raw IH]; [reflexivity|].
    cbn [filter fst snd]. rewrite (Hall t c) by now left.
    apply IH. intros t' c' H. apply (Hall t'). now right.
Qed.

(** The only active query stops matching and nothing starts to match: no
    list is emitted. *)
Lemma deactivations_never_emit_witness :
  watchActivations Fixture.leaving = [].
Proof.
  apply (deactivations_never_emit Fixture.leaving).
  intros t c [[= <- <-]|[]]. reflexivity.
Defined.

(** C4 (as amended). For a burst of one or more activation notifications,
    each less than 10 ms after the one before, the recomputation runs once, 10
    ms after the last of them, on the observer as it stands then; its list is
    the one emission of the burst when an entry with a non-empty [mediaQuery]
    is left after overlap filtering, and there is no emission otherwise. *)
Theorem burst_recomputed_once (w : Timeline) (raw : Rx.stream MediaChange) :
  let signals := Rx.filter (fun _ change => matches change) raw in
  let window_end := Rx.last_time signals + 10 in
  signals <> [] -> burst 10 signals ->
  pipeline w raw
  = match published (at_time w window_end) with
    | Some changes => [(window_end, changes)]
    | None => []
    end
  /\ List.length (pipeline w raw) <= 1
  /\ (List.length (pipeline w raw) = 1
      <-> exists c,
            In c (excludeOverlaps (at_time w window_end)
                    (findAllActivations (at_time w window_end)))
            /\ mediaQuery c <> EmptyString).
Proof.
  intros signals window_end Hne Hb.
  destruct (debounceTime_burst 10 signals Hne Hb) as (v & _ & Hd).
  assert (Heq : pipeline w raw
                = match published (at_time w window_end) with
                  | Some changes => [(window_end, changes)]
                  | None => []
                  end).
  { rewrite pipeline_published. fold signals. rewrite Hd.
    cbn [flat_map fst]. fold window_end. now rewrite app_nil_r. }
  split; [exact Heq|]. rewrite Heq. unfold published.
  rewrite <- hasChanges_true.
  destruct (hasChanges _); cbn [List.length]; split; try lia; split;
    congruence || discriminate.
Qed.

(** Two queries start to match 4 ms apart: one list, with both, is emitted
    10 ms after the second notification. *)
Lemma burst_recomputed_once_witness :
  watchActivations Fixture.crossing = [(14, [Fixture.ev_md; Fixture.ev_gt_sm])].
Proof.
  apply (burst_recomputed_once Fixture.crossing).
  - discriminate.
  - simpl. lia.
Defined.

(** C4 (as stated) fails: a query starts to match and stops matching 5 ms
    later. The burst of one activation notification produces no emission,
    because the list recomputed at the end of the window is empty. *)
Lemma burst_without_emission :
  ~ (forall (w : Timeline) (raw : Rx.stream MediaChange),
       let signals := Rx.filter (fun _ change => matches change) raw in
       signals <> [] -> burst 10 signals ->
       List.length (pipeline w raw) = 1).
Proof.
  intros H.
  specialize (H Fixture.flicker (observe Fixture.flicker [])).
  cbv zeta in H. discriminate H.
  - discriminate.
  - exact I.
Qed.


(* ================================================================= *)
(** ** Further properties of the comparator and the sort *)

Lemma sortChangesByPriority_difference (a b : option MediaChange) :
  sortChangesByPriority a b = (priority_or_zero b - priority_or_zero a)%Z.
Proof.
  destruct a as [a|], b as [b|]; unfold sortChangesByPriority, priority_or_zero;
    rewrite ?or_num_zero; reflexivity.
Qed.

(** X1. [sortChangesByPriority] orders by priority, [null] entries and
    entries without a priority counting as 0: its result is negative exactly
    when the first entry has the greater priority and positive exactly when
    it has the smaller one, swapping the arguments swaps the sign, and "does
    not sort after" is transitive, as [Array.prototype.sort] requires of a
    comparator. *)
Theorem sortChangesByPriority_consistent (a b c : option MediaChange) :
  ((sortChangesByPriority a b < 0)%Z
   <-> (priority_or_zero b < priority_or_zero a)%Z)
  /\ ((0 < sortChangesByPriority a b)%Z
      <-> (priority_or_zero a < priority_or_zero b)%Z)
  /\ ((sortChangesByPriority a b < 0)%Z <-> (0 < sortChangesByPriority b a)%Z)
  /\ ((sortChangesByPriority a b <= 0)%Z -> (sortChangesByPriority b c <= 0)%Z ->
      (sortChangesByPriority a c <= 0)%Z).
Proof.
  rewrite !sortChangesByPriority_difference. repeat split; lia.
Qed.

Lemma sortChangesByPriority_consistent_witness :
  (sortChangesByPriority (Some Fixture.ev_md) None <= 0)%Z.
Proof.
  apply (sortChangesByPriority_consistent
           (Some Fixture.ev_md) (Some Fixture.ev_gt_sm) None);
    vm_compute; discriminate.
Defined.

Lemma sort_sorted_id (l : list MediaChange) :
  StronglySorted (descending effective_priority) l -> JS.sort byPriority l = l.
Proof.
  intros Hs. symmetry.
  apply (sort_unique byPriority effective_priority compare_by_effective_priority);
    [exact Hs|reflexivity].
Qed.

(** X2. An emitted list is a fixed point of the sort: a consumer that sorts
    it again with [sortChangesByPriority] gets the same list. *)
Theorem emitted_list_resorted (this : MediaObserver) (changes : list MediaChange) :
  published this = Some changes ->
  JS.sort byPriority changes = changes.
Proof.
  intros Hp. apply published_some in Hp as [-> _].
  apply sort_sorted_id.
  destruct (excludeOverlaps_is_filter this) as [keep ->].
  apply filter_descending, findAllActivations_descending.
Qed.

Lemma emitted_list_resorted_witness :
  JS.sort byPriority [Fixture.ev_md; Fixture.ev_gt_sm; Fixture.ev_xs]
  = [Fixture.ev_md; Fixture.ev_gt_sm; Fixture.ev_xs].
Proof.
  apply (emitted_list_resorted
           (Fixture.observer false [Fixture.q_xs; Fixture.q_md; Fixture.q_gt_sm])).
  reflexivity.
Defined.

(** X3. The overlap filter and the sort commute: removing the overlapping
    entries from the sorted list, as [buildObservable] does, gives the list
    that sorting the filtered entries would give. *)
Theorem excludeOverlaps_sort_commute (this : MediaObserver) (changes : list MediaChange) :
  excludeOverlaps this (JS.sort byPriority changes)
  = JS.sort byPriority (excludeOverlaps this changes).
Proof.
  destruct (excludeOverlaps_is_filter this) as [keep Hkeep]. rewrite !Hkeep.
  apply (sort_unique byPriority effective_priority compare_by_effective_priority).
  - apply filter_descending.
    apply (sort_descending byPriority effective_priority compare_by_effective_priority).
  - intros p. rewrite filter_swap.
    rewrite (sort_stable byPriority effective_priority compare_by_effective_priority).
    apply filter_swap.
Qed.

Lemma filter_idempotent {A} (f : A -> bool) (l : list A) :
  filter f (filter f l) = filter f l.
Proof.
  induction l as [|x l IH]; [reflexivity|]. cbn [filter].
  destruct (f x) eqn:Hf; [|exact IH]. cbn [filter]. now rewrite Hf, IH.
Qed.

(** X4. [excludeOverlaps] is idempotent, works entry by entry (the filtered
    concatenation is the concatenation of the filtered parts) and never
    lengthens a list. *)
Theorem excludeOverlaps_idempotent (this : MediaObserver) (l1 l2 : list MediaChange) :
  excludeOverlaps this (excludeOverlaps this l1) = excludeOverlaps this l1
  /\ excludeOverlaps this (l1 ++ l2) = excludeOverlaps this l1 ++ excludeOverlaps this l2
  /\ List.length (excludeOverlaps this l1) <= List.length l1.
Proof.
  destruct (excludeOverlaps_is_filter this) as [keep Hkeep]. rewrite !Hkeep.
  split; [apply filter_idempotent|]. split; [apply filter_app|apply filter_length_le].
Qed.

(* ================================================================= *)
(** ** Further properties of what is published *)

Lemma findAllActivations_length (this : MediaObserver) :
  List.length (findAllActivations this) = List.length (activations (matchMedia this)).
Proof.
  rewrite (Permutation_length (findAllActivations_permutation this)).
  apply length_map.
Qed.

(** X5. A published list is never empty and never longer than the matcher's
    list of active queries; while no query is active nothing is published. *)
Theorem published_never_empty (this : MediaObserver) :
  (forall changes,
     published this = Some changes ->
     changes <> []
     /\ List.length changes <= List.length (activations (matchMedia this)))
  /\ (activations (matchMedia this) = [] -> published this = None).
Proof.
  split.
  - intros changes Hp. pose proof (published_some this changes Hp) as [Hc Hh].
    split.
    + intros ->. discriminate Hh.
    + rewrite Hc, <- findAllActivations_length.
      destruct (excludeOverlaps_is_filter this) as [keep ->].
      apply filter_length_le.
  - intros Hnil. unfold published, findAllActivations, annotated.
    rewrite Hnil. cbn [List.map JS.sort fold_right].
    destruct (excludeOverlaps_is_filter this) as [keep ->]. reflexivity.
Qed.

Lemma published_never_empty_witness :
  published (Fixture.observer true []) = None
  /\ [Fixture.ev_md] <> [].
Proof.
  split.
  - apply (published_never_empty (Fixture.observer true [])). reflexivity.
  - apply (published_never_empty (Fixture.observer true [Fixture.q_gt_sm; Fixture.q_md])).
    reflexivity.
Defined.

(** X6. Setting [filterOverlaps] can only take away: whenever a list is
    published with the flag set, a list is published with the flag cleared
    too, it is the unfiltered [findAllActivations()], and the first list is
    what [excludeOverlaps] leaves of it. *)
Theorem filterOverlaps_only_removes (this : MediaObserver) (changes : list MediaChange) :
  published (set_filterOverlaps this true) = Some changes ->
  published (set_filterOverlaps this false) = Some (findAllActivations this)
  /\ changes = excludeOverlaps (set_filterOverlaps this true) (findAllActivations this)
  /\ incl changes (findAllActivations this).
Proof.
  intros Hp. apply published_some in Hp as [Hc Hh].
  change (findAllActivations (set_filterOverlaps this true))
    with (findAllActivations this) in Hc.
  assert (Hincl : incl changes (findAllActivations this)).
  { intros c Hin. rewrite Hc in Hin. now apply excludeOverlaps_incl in Hin. }
  split; [|split; [exact Hc|exact Hincl]].
  unfold published.
  change (excludeOverlaps (set_filterOverlaps this false)
            (findAllActivations (set_filterOverlaps this false)))
    with (findAllActivations this).
  apply hasChanges_true in Hh as (c & Hin & Hq).
  assert (Hh' : hasChanges (findAllActivations this) = true)
    by (apply hasChanges_true; exists c; auto).
  now rewrite Hh'.
Qed.

Lemma filterOverlaps_only_removes_witness :
  published (Fixture.observer false [Fixture.q_gt_sm; Fixture.q_md])
  = Some [Fixture.ev_md; Fixture.ev_gt_sm].
Proof.
  apply (filterOverlaps_only_removes
           (Fixture.observer false [Fixture.q_gt_sm; Fixture.q_md])
           [Fixture.ev_md]).
  reflexivity.
Defined.

(* ================================================================= *)
(** ** Further properties of the point query *)

(** X7. When the registry answers a lookup by query with a breakpoint of that
    query, and no such query is itself an alias, resolving is idempotent:
    [toMediaQuery] maps its own result to itself, and [isActive] gives the
    same answer for an alias and for the media query it stands for. *)
Theorem toMediaQuery_idempotent (this : MediaObserver) (s : string) :
  query_sound (breakpoints this) ->
  queries_not_aliases (breakpoints this) ->
  toMediaQuery (toMediaQuery s (breakpoints this)) (breakpoints this)
  = toMediaQuery s (breakpoints this)
  /\ isActive this (toMediaQuery s (breakpoints this)) = isActive this s.
Proof.
  intros Hsound Hna.
  assert (Hidem : toMediaQuery (toMediaQuery s (breakpoints this)) (breakpoints this)
                  = toMediaQuery s (breakpoints this)).
  { assert (Hres : forall bp,
               findByAlias (breakpoints this) s = Some bp
               \/ findByQuery (breakpoints this) s = Some bp ->
               toMediaQuery (bp_mediaQuery bp) (breakpoints this) = bp_mediaQuery bp).
    { intros bp Hbp. rewrite toMediaQuery_cases, (Hna s bp Hbp).
      destruct (findByQuery (breakpoints this) (bp_mediaQuery bp)) as [bp'|] eqn:Hq;
        [now apply Hsound|reflexivity]. }
    rewrite (toMediaQuery_cases s).
    destruct (findByAlias (breakpoints this) s) as [bp|] eqn:Ha; [now apply Hres; left|].
    destruct (findByQuery (breakpoints this) s) as [bp|] eqn:Hq; [now apply Hres; right|].
    rewrite toMediaQuery_cases, Ha, Hq. reflexivity. }
  split; [exact Hidem|]. unfold isActive. now rewrite Hidem.
Qed.

Lemma table_registry_query_sound (bps : list BreakPoint) :
  query_sound (table_registry bps).
Proof.
  intros q bp Hf. cbn in Hf. apply find_some in Hf as [_ Heq].
  now apply String.eqb_eq in Heq.
Qed.

Lemma table_registry_lookup_in (bps : list BreakPoint) (s : string) (bp : BreakPoint) :
  findByAlias (table_registry bps) s = Some bp
  \/ findByQuery (table_registry bps) s = Some bp ->
  In bp bps.
Proof.
  unfold table_registry. cbn [findByAlias findByQuery].
  intros [H|H]; apply find_some in H; tauto.
Qed.

Lemma toMediaQuery_idempotent_witness :
  isActive (Fixture.observer false [Fixture.q_md]) Fixture.q_md
  = isActive (Fixture.observer false [Fixture.q_md]) "md".
Proof.
  apply (toMediaQuery_idempotent (Fixture.observer false [Fixture.q_md]) "md").
  - apply table_registry_query_sound.
  - intros s bp H.
    apply (table_registry_lookup_in
             [Fixture.bp_xs; Fixture.bp_md; Fixture.bp_gt_sm]) in H.
    repeat (destruct H as [<-|H]; [reflexivity|]). destruct H.
Defined.

(* ================================================================= *)
(** ** The status line of the consumer *)

Lemma string_length_append (s1 s2 : string) :
  String.length (s1 ++ s2) = String.length s1 + String.length s2.
Proof. induction s1 as [|a s1 IH]; simpl; congruence. Qed.

(** X8. [extractQuery] returns the empty string exactly when it is given no
    change; for a change the text is the alias and the query with seven
    characters of punctuation around them. *)
Theorem extractQuery_empty_iff_no_change (change : option MediaChange) :
  (extractQuery change = EmptyString <-> change = None)
  /\ String.length (extractQuery change)
     = match change with
       | Some c => 7 + String.length (mqAlias c) + String.length (mediaQuery c)
       | None => 0
       end.
Proof.
  destruct change as [c|]; cbn [extractQuery]; split;
    try (split; (discriminate || reflexivity)); try reflexivity.
  rewrite !string_length_append. cbn [String.length]. lia.
Qed.

Lemma extractQuery_empty_iff_no_change_witness :
  extractQuery None = EmptyString
  /\ String.length (extractQuery (Some Fixture.ev_md)) = 7 + 2 + 42.
Proof.
  split.
  - apply (extractQuery_empty_iff_no_change None). reflexivity.
  - apply (extractQuery_empty_iff_no_change (Some Fixture.ev_md)).
Defined.

(* ================================================================= *)
(** ** Further properties of the debounced pipeline *)

Lemma debounceTime_last {A} (d : nat) (s : Rx.stream A) :
  s <> [] ->
  exists v, In (Rx.last_time s, v) s
            /\ In (Rx.last_time s + d, v) (Rx.debounceTime d s).
Proof.
  induction s as [|[t1 v1] rest IH]; [congruence|]. intros _.
  destruct rest as [|[t2 v2] rest'].
  - exists v1. split; now left.
  - destruct IH as (v & Hin & Hout); [discriminate|].
    exists v. split; [now right|].
    change (Rx.last_time ((t1, v1) :: (t2, v2) :: rest'))
      with (Rx.last_time ((t2, v2) :: rest')).
    change (Rx.debounceTime d ((t1, v1) :: (t2, v2) :: rest'))
      with (if t2 <=? t1 + d then Rx.debounceTime d ((t2, v2) :: rest')
            else (t1 + d, v1) :: Rx.debounceTime d ((t2, v2) :: rest')).
    destruct (t2 <=? t1 + d); [exact Hout|now right].
Qed.

Lemma debounceTime_separated {A} (d : nat) (s : Rx.stream A) :
  separated d s ->
  Rx.debounceTime d s = List.map (fun e => (fst e + d, snd e)) s.
Proof.
  induction s as [|[t1 v1] rest IH]; [reflexivity|]. intros Hs.
  destruct rest as [|[t2 v2] rest']; [reflexivity|].
  cbn [separated] in Hs. destruct Hs as [Hgap Hs].
  change (Rx.debounceTime d ((t1, v1) :: (t2, v2) :: rest'))
    with (if t2 <=? t1 + d then Rx.debounceTime d ((t2, v2) :: rest')
          else (t1 + d, v1) :: Rx.debounceTime d ((t2, v2) :: rest')).
  destruct (Nat.leb_spec t2 (t1 + d)) as [Hlt|_]; [lia|].
  rewrite (IH Hs). reflexivity.
Qed.

Lemma debounceTime_length {A} (d : nat) (s : Rx.stream A) :
  List.length (Rx.debounceTime d s) <= List.length s.
Proof.
  induction s as [|[t1 v1] rest IH]; [reflexivity|].
  destruct rest as [|[t2 v2] rest']; [reflexivity|].
  change (Rx.debounceTime d ((t1, v1) :: (t2, v2) :: rest'))
    with (if t2 <=? t1 + d then Rx.debounceTime d ((t2, v2) :: rest')
          else (t1 + d, v1) :: Rx.debounceTime d ((t2, v2) :: rest')).
  destruct (t2 <=? t1 + d); cbn [List.length] in *; lia.
Qed.

Lemma debounceTime_spaced {A} (d : nat) (s : Rx.stream A) :
  chronological s -> spaced d (Rx.debounceTime d s).
Proof.
  unfold chronological, spaced.
  induction s as [|[t1 v1] rest IH]; [constructor|]. intros Hc.
  cbn [List.map fst] in Hc. apply StronglySorted_inv in Hc as [Hrest Hall].
  destruct rest as [|[t2 v2] rest']; [repeat constructor|].
  change (Rx.debounceTime d ((t1, v1) :: (t2, v2) :: rest'))
    with (if t2 <=? t1 + d then Rx.debounceTime d ((t2, v2) :: rest')
          else (t1 + d, v1) :: Rx.debounceTime d ((t2, v2) :: rest')).
  destruct (Nat.leb_spec t2 (t1 + d)) as [_|Hge]; [now apply IH|].
  cbn [List.map fst]. constructor; [now apply IH|].
  apply Forall_forall. intros t Ht.
  apply in_map_iff in Ht as ([t' v] & <- & Hin). cbn [fst].
  apply debounceTime_origin in Hin as (t0 & Hin & ->).
  assert (t2 <= t0); [|lia].
  destruct Hin as [[= <- <-]|Hin]; [lia|].
  cbn [List.map fst] in Hrest. apply StronglySorted_inv in Hrest as [_ Hall2].
  rewrite Forall_forall in Hall2. apply Hall2.
  apply in_map_iff. now exists (t0, v).
Qed.

Lemma debounceTime_app {A} (d : nat) (s1 s2 : Rx.stream A) :
  (forall e1 e2, In e1 s1 -> In e2 s2 -> fst e1 + d < fst e2) ->
  Rx.debounceTime d (s1 ++ s2) = Rx.debounceTime d s1 ++ Rx.debounceTime d s2.
Proof.
  induction s1 as [|[t1 v1] rest IH]; [reflexivity|]. intros Hgap.
  assert (IH' : Rx.debounceTime d (rest ++ s2)
                = Rx.debounceTime d rest ++ Rx.debounceTime d s2).
  { apply IH. intros e1 e2 H1 H2. apply Hgap; [now right|exact H2]. }
  destruct rest as [|[t2 v2] rest'].
  - destruct s2 as [|[t2 v2] s2']; [reflexivity|].
    change (Rx.debounceTime d ([(t1, v1)] ++ (t2, v2) :: s2'))
      with (if t2 <=? t1 + d then Rx.debounceTime d ((t2, v2) :: s2')
            else (t1 + d, v1) :: Rx.debounceTime d ((t2, v2) :: s2')).
    specialize (Hgap (t1, v1) (t2, v2) (or_introl eq_refl) (or_introl eq_refl)).
    cbn [fst] in Hgap.
    destruct (Nat.leb_spec t2 (t1 + d)) as [Hlt|_]; [lia|reflexivity].
  - change (Rx.debounceTime d (((t1, v1) :: (t2, v2) :: rest') ++ s2))
      with (if t2 <=? t1 + d then Rx.debounceTime d (((t2, v2) :: rest') ++ s2)
            else (t1 + d, v1) :: Rx.debounceTime d (((t2, v2) :: rest') ++ s2)).
    change (Rx.debounceTime d ((t1, v1) :: (t2, v2) :: rest'))
      with (if t2 <=? t1 + d then Rx.debounceTime d ((t2, v2) :: rest')
            else (t1 + d, v1) :: Rx.debounceTime d ((t2, v2) :: rest')).
    rewrite IH'. now destruct (t2 <=? t1 + d).
Qed.

Lemma sorted_map_filter {A B} (R : B -> B -> Prop) (f : A -> B) (p : A -> bool)
    (l : list A) :
  StronglySorted R (List.map f l) -> StronglySorted R (List.map f (List.filter p l)).
Proof.
  induction l as [|x l IH]; [constructor|]. cbn [List.map List.filter]. intros Hs.
  apply StronglySorted_inv in Hs as [Hl Hall].
  destruct (p x); [|now apply IH].
  cbn [List.map]. constructor; [now apply IH|].
  rewrite Forall_forall in *. intros y Hy. apply Hall.
  apply in_map_iff in Hy as (z & <- & Hz). apply filter_In in Hz as [Hz _].
  now apply in_map.
Qed.

Lemma sorted_times_flat_map {A B} (R : nat -> nat -> Prop)
    (g : nat * A -> list (nat * B)) (l : list (nat * A)) :
  (forall e, g e = [] \/ exists x, g e = [(fst e, x)]) ->
  StronglySorted R (List.map fst l) ->
  StronglySorted R (List.map fst (flat_map g l)).
Proof.
  intros Hg. induction l as [|e l IH]; [constructor|].
  cbn [List.map flat_map]. intros Hs.
  apply StronglySorted_inv in Hs as [Hl Hall].
  destruct (Hg e) as [->|[x ->]]; [now apply IH|].
  cbn [app List.map fst]. constructor; [now apply IH|].
  rewrite Forall_forall in *. intros t Ht. apply Hall.
  apply in_map_iff in Ht as ([t' y] & <- & Hy). cbn [fst].
  apply in_flat_map in Hy as (e' & He' & Hy).
  destruct (Hg e') as [Hnil|[x' Hx']].
  - rewrite Hnil in Hy. destruct Hy.
  - rewrite Hx' in Hy. destruct Hy as [[= <- <-]|[]]. now apply in_map.
Qed.

Lemma published_step_shape (w : Timeline) (e : nat * MediaChange) :
  match published (at_time w (fst e)) with
  | Some changes => [(fst e, changes)]
  | None => []
  end = []
  \/ exists x, match published (at_time w (fst e)) with
               | Some changes => [(fst e, changes)]
               | None => []
               end = [(fst e, x)].
Proof. destruct (published (at_time w (fst e))); eauto. Qed.

(** X9. The last activation notification is never lost: whatever arrived
    before it, the recomputation runs 10 ms after it, and the list passing
    [hasChanges] then is emitted at that time. *)
Theorem last_activation_recomputed (w : Timeline) (raw : Rx.stream MediaChange)
    (changes : list MediaChange) :
  let signals := Rx.filter (fun _ change => matches change) raw in
  let due := Rx.last_time signals + 10 in
  signals <> [] ->
  published (at_time w due) = Some changes ->
  In (due, changes) (pipeline w raw).
Proof.
  intros signals due Hne Hp. apply pipeline_emission. split; [exact Hp|].
  destruct (debounceTime_last 10 signals Hne) as (v & _ & Hout). now exists v.
Qed.

Lemma last_activation_recomputed_witness :
  In (35, [Fixture.ev_xs]) (asObservable Fixture.resizing).
Proof.
  apply (last_activation_recomputed Fixture.resizing
           (observe Fixture.resizing []) [Fixture.ev_xs]).
  - discriminate.
  - reflexivity.
Defined.

(** X10. Activation notifications that arrive more than 10 ms apart are not
    coalesced: each of them is answered, 10 ms after its arrival, by the list
    recomputed at that moment (or by nothing when [hasChanges] rejects it). *)
Theorem separated_signals_each_recomputed (w : Timeline) (raw : Rx.stream MediaChange) :
  let signals := Rx.filter (fun _ change => matches change) raw in
  separated 10 signals ->
  pipeline w raw
  = flat_map (fun e => match published (at_time w (fst e + 10)) with
                       | Some changes => [(fst e + 10, changes)]
                       | None => []
                       end) signals.
Proof.
  intros signals Hsep. rewrite pipeline_published. fold signals.
  rewrite (debounceTime_separated 10 signals Hsep).
  clear Hsep. clearbody signals.
  induction signals as [|e s IH]; [reflexivity|].
  cbn [List.map flat_map fst]. now rewrite IH.
Qed.

Lemma separated_signals_each_recomputed_witness :
  asObservable Fixture.resizing = [(10, [Fixture.ev_md]); (35, [Fixture.ev_xs])].
Proof.
  apply (separated_signals_each_recomputed Fixture.resizing
           (observe Fixture.resizing [])).
  simpl. lia.
Defined.

(** X11. When the raw notifications are in order of arrival, consecutive
    emissions are at least 10 ms apart, so they are in order too, and there
    are no more emissions than activation notifications. *)
Theorem emissions_spaced (w : Timeline) (raw : Rx.stream MediaChange) :
  chronological raw ->
  spaced 10 (pipeline w raw)
  /\ List.length (pipeline w raw)
     <= List.length (Rx.filter (fun _ change => matches change) raw).
Proof.
  intros Hc. rewrite pipeline_published. split.
  - apply sorted_times_flat_map; [apply published_step_shape|].
    apply debounceTime_spaced. unfold chronological, Rx.filter.
    now apply sorted_map_filter.
  - eapply Nat.le_trans; [|apply (debounceTime_length 10)].
    induction (Rx.debounceTime 10 (Rx.filter (fun _ change => matches change) raw))
      as [|e s IH]; [reflexivity|].
    cbn [flat_map]. rewrite length_app.
    destruct (published (at_time w (fst e))); cbn [List.length]; lia.
Qed.

Lemma emissions_spaced_witness :
  spaced 10 (asObservable Fixture.resizing).
Proof.
  apply (emissions_spaced Fixture.resizing (observe Fixture.resizing [])).
  unfold chronological. simpl. repeat constructor; lia.
Defined.

(** X12. Bursts compose: when every activation notification of a second
    stretch of input arrives more than 10 ms after every one of a first
    stretch, the emissions for the whole input are those for the first
    stretch followed by those for the second. *)
Theorem pipeline_app (w : Timeline) (raw1 raw2 : Rx.stream MediaChange) :
  (forall t1 c1 t2 c2,
     In (t1, c1) raw1 -> matches c1 = true ->
     In (t2, c2) raw2 -> matches c2 = true -> t1 + 10 < t2) ->
  pipeline w (raw1 ++ raw2) = pipeline w raw1 ++ pipeline w raw2.
Proof.
  intros Hgap. rewrite !pipeline_published. unfold Rx.filter.
  rewrite filter_app, debounceTime_app, flat_map_app; [reflexivity|].
  intros [t1 c1] [t2 c2] H1 H2.
  apply filter_In in H1 as [H1 Hm1]. apply filter_In in H2 as [H2 Hm2].
  cbn [fst snd] in *. eapply Hgap; eauto.
Qed.

Lemma pipeline_app_witness :
  pipeline Fixture.resizing
    ([(0, new_MediaChange true Fixture.q_md)]
     ++ [(25, new_MediaChange false Fixture.q_md);
         (25, new_MediaChange true Fixture.q_xs)])
  = [(10, [Fixture.ev_md])] ++ [(35, [Fixture.ev_xs])].
Proof.
  apply (pipeline_app Fixture.resizing).
  intros t1 c1 t2 c2 [[= <- <-]|[]] _ [[= <- <-]|[[= <- <-]|[]]] Hm;
    [discriminate Hm|lia].
Defined.

(* ================================================================= *)
(** ** Print substitution *)

(** X13. For an active query whose event the print hook reports as a print
    event, the recomputed list holds the hook's substitute event, merged with
    the breakpoint of the substitute's query; the lookup is made with the
    query of the substitute, not with the query that matched. *)
Theorem print_event_substituted (this : MediaObserver) (query : string) :
  In query (activations (matchMedia this)) ->
  isPrintEvent (hook this) (new_MediaChange true query) = true ->
  let substitute := updateEvent (hook this) (new_MediaChange true query) in
  entry_for this query
  = mergeAlias substitute (findByQuery (breakpoints this) (mediaQuery substitute))
  /\ In (entry_for this query) (findAllActivations this).
Proof.
  intros Hin Hprint substitute. split.
  - unfold entry_for, mergeMQAlias, replaceWithPrintAlias. now rewrite Hprint.
  - eapply Permutation_in; [symmetry; apply findAllActivations_permutation|].
    now apply in_map.
Qed.

Lemma print_event_substituted_witness :
  In Fixture.ev_md
    (findAllActivations
       {| filterOverlaps := false; breakpoints := Fixture.registry;
          matchMedia := Fixture.matcher ["print"%string];
          hook := Fixture.printing |}).
Proof.
  exact (proj2 (print_event_substituted
                  {| filterOverlaps := false; breakpoints := Fixture.registry;
                     matchMedia := Fixture.matcher ["print"%string];
                     hook := Fixture.printing |}
                  "print"%string (or_introl eq_refl) eq_refl)).
Defined.
